(** * Requirements of refactoring action rules

    A shallow embedding of
    [include/clang/Tooling/Refactoring/RefactoringActionRuleRequirements.h]:
    the selection requirement, the option requirement and the shared
    ownership of refactoring options, with the properties the specification
    of the requirement-evaluation gate states about them. *)

From stdpp Require Import base option strings list gmap.

Local Open Scope string_scope.

(** ** llvm/Support/Error.h *)

Module llvm.

(** [std::error_code] is used by the header through one value only,
    [llvm::inconvertibleErrorCode()]; every other code is kept by its
    number. *)
Inductive error_code : Type :=
| inconvertibleErrorCode
| errc (value : Z).

(** [llvm::Error] holding a [llvm::StringError]: the only error payload
    the header makes. *)
Inductive Error : Type :=
| StringError (Msg : string) (EC : error_code).

(** [llvm::Expected<T>]: either a value of [T] or an [Error]. *)
Inductive Expected (T : Type) : Type :=
| Success (Value : T)
| Failure (Err : Error).
Global Arguments Success {T} Value.
Global Arguments Failure {T} Err.

End llvm.
Import llvm.

(** ** The declarations the header includes

    [clang/Basic/SourceLocation.h] and [RefactoringRuleContext.h] are used
    through [SourceRange::isValid] and the accessor
    [RefactoringRuleContext::getSelectionRange] only, so both types stay
    abstract. *)
Class RuleContextDecls : Type := {
  SourceRange : Type;
  isValid : SourceRange → bool;
  RefactoringRuleContext : Type;
  getSelectionRange : RefactoringRuleContext → SourceRange;
}.

(** What [OptionRequirement<OptionType>] asks of its template argument: the
    member type [ValueType], the accessor [getValue], the virtual
    [RefactoringOption::isRequired] it inherits, and the default constructor
    that [std::make_shared<OptionType>()] runs. *)
Class RefactoringOptionKind (OptionType : Type) : Type := {
  ValueType : Type;
  getValue : OptionType → ValueType;
  isRequired : OptionType → bool;
  defaultOption : OptionType;
}.
Global Arguments ValueType OptionType {_}.

(** A [std::shared_ptr<RefactoringOption>] is the address of the option
    object it shares. *)
Abbreviation loc := positive.

(** ** The state requirements are evaluated in *)

Section State.
Context `{RuleContextDecls}.
Context {OptionType : Type}.

(** The invocation context, which [evaluate] receives by mutable
    reference, and the heap of the [OptionType] objects made by
    [createRefactoringOption]. *)
Record World : Type := mkWorld {
  ctx : RefactoringRuleContext;
  heap : gmap loc OptionType;
}.

(** A member function: it may read and write the world; [None] is a read
    through a pointer that owns no object. *)
Definition M (A : Type) : Type := World → option (A * World).

Global Instance M_ret : MRet M := λ A a w, Some (a, w).

Global Instance M_bind : MBind M := λ A B k m w,
  match m w with
  | Some (a, w') => k a w'
  | None => None
  end.

(** [Context.f()] for a const accessor [f]. *)
Definition readContext {A} (f : RefactoringRuleContext → A) : M A :=
  λ w, Some (f (ctx w), w).

(** [Context.setSelectionRange]-like writes of the setup phase. *)
Definition setContext (C : RefactoringRuleContext) (w : World) : World :=
  {| ctx := C; heap := heap w |}.

(** [*P] for a shared pointer [P]. *)
Definition deref (P : loc) : M OptionType :=
  λ w, match heap w !! P with
       | Some Obj => Some (Obj, w)
       | None => None
       end.

(** A write to the object [P] points to, as the option visitor of the
    resolution phase does. *)
Definition store (P : loc) (Obj : OptionType) (w : World) : World :=
  {| ctx := ctx w; heap := <[P := Obj]> (heap w) |}.

(** [std::make_shared<OptionType>()] with the object the constructor
    leaves: a new object at an unused address. *)
Definition make_shared (Obj : OptionType) : M loc :=
  λ w, let P := fresh (dom (heap w)) in
       Some (P, {| ctx := ctx w; heap := <[P := Obj]> (heap w) |}).

End State.
Global Arguments World {_} OptionType.
Global Arguments M {_} OptionType A.

(** ** SourceRangeSelectionRequirement *)

Module SourceRangeSelectionRequirement.
Section Def.
Context `{RuleContextDecls} {OptionType : Type}.

(** The class has no data member. *)
Record t : Type := make {}.

Definition NoSelectionMessage : string :=
  "refactoring action can't be initiated without a selection".

Definition evaluate (this : t) : M OptionType (Expected SourceRange) :=
  R ← readContext getSelectionRange;
  if isValid R then
    R' ← readContext getSelectionRange;
    mret (Success R')
  else
    mret (Failure (StringError NoSelectionMessage inconvertibleErrorCode)).

End Def.
End SourceRangeSelectionRequirement.

(** ** OptionRequirement<OptionType> *)

Module OptionRequirement.

(** The single data member: the partially-owned option. *)
Record t (OptionType : Type) : Type := make { Opt : loc }.
Global Arguments make {OptionType} Opt.
Global Arguments Opt {OptionType} _.

Section Def.
Context `{RuleContextDecls}.
Context {OptionType : Type} `{!RefactoringOptionKind OptionType}.
Local Abbreviation t := (t OptionType).

(** Modelled from the spec: [createRefactoringOption<OptionType>()] is
    declared in [RefactoringOption.h], which the header only includes; it
    "creates one Option instance of kind OptionType, stored as a shared
    reference". *)
Definition createRefactoringOption : M OptionType loc :=
  make_shared defaultOption.

(** [OptionRequirement() : Opt(createRefactoringOption<OptionType>()) {}] *)
Definition new : M OptionType t :=
  P ← createRefactoringOption;
  mret (make P).

(** The implicit copy constructor copies the [shared_ptr]: the copy points
    to the object the original points to. *)
Definition copy (this : t) : t := make (Opt this).

(** [return Opt;] builds the [ArrayRef] of one element. *)
Definition getRefactoringOptions (this : t) : list loc := [Opt this].

(** The context argument has no name in the source: it is never read. *)
Definition evaluate (this : t) : M OptionType (Expected (ValueType OptionType)) :=
  Obj ← deref (Opt this);
  mret (Success (getValue Obj)).

(** The options a list of requirements declares, each counted once. *)
Definition declaredOptions (Rs : list t) : gset loc :=
  ⋃ (list_to_set ∘ getRefactoringOptions <$> Rs).

End Def.
End OptionRequirement.

(** ** Option kinds

    The option classes of [RefactoringOptions.h] are not in the header; the
    two kinds below implement the interface [OptionRequirement] asks for. *)

Module OptionKinds.

(** Modelled from the spec: an optional option, whose [ValueType] is an
    optional wrapper: its value is "None/absent for unset optional
    options, a concrete value otherwise". *)
Record OptionalRefactoringOption (T : Type) : Type :=
  mkOptional { Value : option T }.
Global Arguments mkOptional {T} Value.
Global Arguments Value {T} _.

Global Instance OptionalKind (T : Type) :
  RefactoringOptionKind (OptionalRefactoringOption T) := {|
  ValueType := option T;
  getValue := Value;
  isRequired := λ _, false;
  defaultOption := mkOptional None;
|}.

(** Modelled from the spec: a required option, "a named, typed
    configurable value with a declared required/optional-ness" that holds
    "a concrete value" or is "unset". Its [ValueType] is [T] itself, so
    [getValue] has only the stored [T] to give, also while [IsSet] is still
    false. *)
Record RequiredOption (T : Type) : Type :=
  mkRequired { Stored : T; IsSet : bool }.
Global Arguments mkRequired {T} Stored IsSet.
Global Arguments Stored {T} _.
Global Arguments IsSet {T} _.

Global Instance RequiredKind (T : Type) `{Inhabited T} :
  RefactoringOptionKind (RequiredOption T) := {|
  ValueType := T;
  getValue := Stored;
  isRequired := λ _, true;
  defaultOption := mkRequired inhabitant false;
|}.

End OptionKinds.

(** ** The rule binder *)

Module RuleBinder.
Section Def.
Context `{RuleContextDecls} {OptionType : Type}.

(** A requirement of result type [T], seen through its [evaluate]. *)
Definition Requirement (T : Type) : Type := M OptionType (Expected T).

(** The ordered tuple [(R1..Rn)], indexed by the result types. *)
Inductive Requirements : list Type → Type :=
| ReqNil : Requirements []
| ReqCons {T Ts} (R : Requirement T) (Rs : Requirements Ts) :
    Requirements (T :: Ts).

(** The extracted values [(v1..vn)]. *)
Fixpoint Values (Ts : list Type) : Type :=
  match Ts with
  | [] => unit
  | T :: Ts => (T * Values Ts)%type
  end.

(** Modelled from the spec: the binder lives in
    [RefactoringActionRulesInternal.h], which is not among the sources.
    "Evaluate R1.evaluate(C). If it fails, stop and return that failure;
    repeat for each subsequent requirement; if all succeed, invoke the
    target rule's constructor with the extracted values (v1..vn) in the
    same order the requirements were declared." *)
Fixpoint bindRule {Rule Ts} (Rs : Requirements Ts) :
    (Values Ts → M OptionType Rule) → M OptionType (Expected Rule) :=
  match Rs with
  | ReqNil => λ Construct,
      R ← Construct tt;
      mret (Success R)
  | ReqCons R Rs => λ Construct,
      E ← R;
      match E with
      | Failure Err => mret (Failure Err)
      | Success V => bindRule Rs (λ Vs, Construct (V, Vs))
      end
  end.

(** [Pre] followed by [Post]. *)
Fixpoint append {Ts1 Ts2} (Pre : Requirements Ts1) (Post : Requirements Ts2) :
    Requirements (Ts1 ++ Ts2) :=
  match Pre with
  | ReqNil => Post
  | ReqCons R Rs => ReqCons R (append Rs Post)
  end.

(** Every requirement of the tuple, evaluated from left to right starting
    in [w], succeeds; [Vs] are the values in declaration order and [w']
    is the world after the last one. *)
Inductive Succeed : ∀ {Ts}, Requirements Ts → World OptionType →
    Values Ts → World OptionType → Prop :=
| SucceedNil w : Succeed ReqNil w tt w
| SucceedCons {T Ts} (R : Requirement T) (Rs : Requirements Ts)
      w V w1 Vs w2 :
    R w = Some (Success V, w1) →
    Succeed Rs w1 Vs w2 →
    Succeed (ReqCons R Rs) w (V, Vs) w2.

End Def.
Global Arguments Requirements {_} OptionType Ts.
End RuleBinder.

(** ** Repeated evaluation *)

Section Repeat.
Context `{RuleContextDecls} {OptionType : Type}.

(** [n] calls of the same member function, one after the other, with the
    results in call order. *)
Fixpoint repeatM {A} (n : nat) (m : M OptionType A) : M OptionType (list A) :=
  match n with
  | 0 => mret []
  | S n => x ← m; xs ← repeatM n m; mret (x :: xs)
  end.

End Repeat.

(** ** An instance for the examples

    Source locations as raw encodings, where 0 is the invalid location; a
    range is valid when both of its ends are; the context keeps the
    selection it was given. *)

Module Clang.

Record SourceLocation : Type := mkLocation { ID : Z }.

Definition isValidLocation (L : SourceLocation) : bool :=
  negb (ID L =? 0)%Z.

Record SourceRange : Type := mkRange { B : SourceLocation; E : SourceLocation }.

Definition isValid (R : SourceRange) : bool :=
  isValidLocation (B R) && isValidLocation (E R).

Definition range (b e : Z) : SourceRange :=
  mkRange (mkLocation b) (mkLocation e).

Record RefactoringRuleContext : Type := mkContext { SelectionRange : SourceRange }.

Global Instance Decls : RuleContextDecls :=
  Build_RuleContextDecls SourceRange isValid RefactoringRuleContext SelectionRange.

(** The context after [setSelectionRange(range b e)]. *)
Definition selected (b e : Z) : RefactoringRuleContext := mkContext (range b e).

(** The context no selection was given to: the default range. *)
Definition unselected : RefactoringRuleContext := mkContext (range 0 0).

End Clang.

(** ** The scenarios of the specification

    A rule made from a selection and a count, the count being the value of
    a required option of integers. *)

Module Scenario.

Import OptionKinds RuleBinder.

Abbreviation IntOption := (RequiredOption Z).

(** The option object after the resolver has set it to [n]. *)
Definition resolvedTo (n : Z) : IntOption := mkRequired n true.

(** The option object the resolver left unset. *)
Definition unset : IntOption := mkRequired 0%Z false.

Record Rule : Type := mkRule { Selection : Clang.SourceRange; Count : Z }.

(** The constructor of the rule. *)
Definition initiate : Values [Clang.SourceRange : Type; Z : Type] → M IntOption Rule :=
  λ Vs, mret (mkRule Vs.1 Vs.2.1).

(** The world after the setup phase: the context [C] and one option
    object, at address 1. *)
Definition world (C : Clang.RefactoringRuleContext) (Obj : IntOption) :
    World IntOption :=
  mkWorld C {[ 1%positive := Obj ]}.

(** The requirement pointing to that object. *)
Definition countRequirement : OptionRequirement.t IntOption :=
  OptionRequirement.make 1%positive.

(** The failure of the selection requirement. *)
Abbreviation NoSelection :=
  (StringError "refactoring action can't be initiated without a selection"
     inconvertibleErrorCode).

Abbreviation selectionRequirement :=
  (SourceRangeSelectionRequirement.evaluate
     SourceRangeSelectionRequirement.make).

Definition requirements : Requirements IntOption [Clang.SourceRange : Type; Z : Type] :=
  ReqCons selectionRequirement
    (ReqCons (OptionRequirement.evaluate countRequirement) ReqNil).

(** A requirement that leaves a mark when it is evaluated: it overwrites
    the option object at [P]. *)
Definition probe (P : loc) (Obj : IntOption) : Requirement unit :=
  λ w, Some (Success tt, store P Obj w).

(** A constructor that leaves a mark as well. *)
Definition markingConstructor {Ts} (P : loc) (Obj : IntOption) :
    Values Ts → M IntOption unit :=
  λ _ w, Some (tt, store P Obj w).

End Scenario.

(** * Properties *)

(** Runs the monadic code of a member function on the world at hand. *)
Ltac run_member :=
  unfold SourceRangeSelectionRequirement.evaluate, OptionRequirement.evaluate,
    OptionRequirement.new, OptionRequirement.createRefactoringOption,
    make_shared, readContext, deref;
  unfold mbind, mret, M_bind, M_ret; simpl.

(** ** The selection requirement *)

Section SelectionFacts.
Context `{RuleContextDecls} {OptionType : Type}.
Implicit Types (this : SourceRangeSelectionRequirement.t) (w : World OptionType).

Import SourceRangeSelectionRequirement.

(** The two branches of [evaluate], by the validity of the selection. *)
Lemma selection_evaluate_cases this w :
  evaluate this w =
    Some (if isValid (getSelectionRange (ctx w))
          then Success (getSelectionRange (ctx w))
          else Failure (StringError NoSelectionMessage inconvertibleErrorCode),
          w).
Proof. run_member. by destruct (isValid _). Qed.

(** C1: when the selection range of the context is invalid (which covers
    the absent selection, the default range), [evaluate] returns the
    failure with the message "refactoring action can't be initiated without
    a selection", and no success value. *)
Theorem selection_evaluate_no_selection this w :
  isValid (getSelectionRange (ctx w)) = false →
  evaluate this w =
    Some (Failure (StringError
            "refactoring action can't be initiated without a selection"
            inconvertibleErrorCode), w)
  ∧ ∀ R w', evaluate this w ≠ Some (Success R, w').
Proof.
  intros Hinvalid. rewrite selection_evaluate_cases, Hinvalid.
  split; [reflexivity | congruence].
Qed.

(** C2: when the selection range of the context is valid, [evaluate]
    succeeds with exactly the range [getSelectionRange] gives. *)
Theorem selection_evaluate_valid this w :
  isValid (getSelectionRange (ctx w)) = true →
  evaluate this w = Some (Success (getSelectionRange (ctx w)), w).
Proof.
  intros Hvalid. by rewrite selection_evaluate_cases, Hvalid.
Qed.

(** C9: [evaluate] of the selection requirement hands back the world it
    was given, context and option heap alike: it only reads. *)
Theorem selection_evaluate_pure this w :
  snd <$> evaluate this w = Some w.
Proof. by rewrite selection_evaluate_cases. Qed.

End SelectionFacts.

Lemma selection_evaluate_no_selection_witness :
  let w : World unit := mkWorld Clang.unselected ∅ in
  let this := SourceRangeSelectionRequirement.make in
  isValid (getSelectionRange (ctx w)) = false
  ∧ SourceRangeSelectionRequirement.evaluate this w =
      Some (Failure (StringError
              "refactoring action can't be initiated without a selection"
              inconvertibleErrorCode), w).
Proof.
  intros w this. split; [reflexivity |].
  apply (selection_evaluate_no_selection this w). reflexivity.
Defined.

Lemma selection_evaluate_valid_witness :
  let w : World unit := mkWorld (Clang.selected 10 20) ∅ in
  let this := SourceRangeSelectionRequirement.make in
  isValid (getSelectionRange (ctx w)) = true
  ∧ SourceRangeSelectionRequirement.evaluate this w =
      Some (Success (Clang.range 10 20), w).
Proof.
  intros w this. split; [reflexivity |].
  apply (selection_evaluate_valid this w). reflexivity.
Defined.

(** ** The option requirement *)

Section OptionFacts.
Context `{RuleContextDecls}.
Context {OptionType : Type} `{!RefactoringOptionKind OptionType}.
Implicit Types (this : OptionRequirement.t OptionType) (w : World OptionType).
Implicit Types (P : loc) (Obj : OptionType).

Import OptionRequirement.

(** [evaluate] is one read of the shared option followed by [getValue]. *)
Lemma option_evaluate_unfold this w :
  evaluate this w = (λ Obj, (Success (getValue Obj), w)) <$> heap w !! Opt this.
Proof. run_member. by destruct (heap w !! Opt this). Qed.

Lemma option_evaluate_alive this w Obj :
  heap w !! Opt this = Some Obj →
  evaluate this w = Some (Success (getValue Obj), w).
Proof. intros Halive. by rewrite option_evaluate_unfold, Halive. Qed.

Lemma option_evaluate_no_failure this w Err w' :
  evaluate this w ≠ Some (Failure Err, w').
Proof.
  rewrite option_evaluate_unfold. destruct (heap w !! Opt this); simpl; congruence.
Qed.

(** The constructor always returns, with a pointer to a new object that
    holds the default-constructed option. *)
Lemma option_new_spec w :
  ∃ this, new w = Some (this, store (Opt this) defaultOption w)
          ∧ heap w !! Opt this = None.
Proof.
  exists (make (fresh (dom (heap w)))). split; [reflexivity |]. simpl.
  apply not_elem_of_dom, is_fresh.
Qed.

Lemma store_lookup P Obj w : heap (store P Obj w) !! P = Some Obj.
Proof. apply lookup_insert_eq. Qed.

Lemma store_lookup_ne P Q Obj w :
  P ≠ Q → heap (store P Obj w) !! Q = heap w !! Q.
Proof. intros Hne. by apply lookup_insert_ne. Qed.

(** The resolution phase writes to objects that exist, so every
    requirement keeps pointing to an object. *)
Lemma store_keeps_alive P Obj this w :
  is_Some (heap w !! Opt this) → is_Some (heap (store P Obj w) !! Opt this).
Proof.
  intros Halive. unfold store; simpl. rewrite lookup_insert.
  case_decide; [by eexists | done].
Qed.

(** Sequencing [n + 1] evaluations of one requirement. *)
Lemma repeatM_constant {A} (m : M OptionType A) (n : nat) w r :
  m w = Some (r, w) → repeatM n m w = Some (replicate n r, w).
Proof.
  intros Hm. induction n as [|n IH]; [reflexivity |].
  simpl. unfold mbind, mret, M_bind, M_ret in *. by rewrite Hm, IH.
Qed.

Lemma repeatM_none {A} (m : M OptionType A) (n : nat) w :
  m w = None → repeatM (S n) m w = None.
Proof. intros Hm. simpl. unfold mbind, M_bind. by rewrite Hm. Qed.

End OptionFacts.

Section OptionClaims.
Context `{RuleContextDecls}.

Import OptionRequirement OptionKinds.

(** C3: [evaluate] of an option requirement returns, as a success, what
    [getValue] gives for the option object the requirement shares, whatever
    [isRequired] says of it; for an optional option, whose [ValueType] is an
    optional wrapper, an unset option gives the absent value as a
    success. *)
Theorem option_evaluate_returns_stored_value :
  (∀ OptionType (K : RefactoringOptionKind OptionType)
     (this : t OptionType) (w : World OptionType) (Obj : OptionType),
     heap w !! Opt this = Some Obj →
     evaluate this w = Some (Success (getValue Obj), w))
  ∧ (∀ T (this : t (OptionalRefactoringOption T))
       (w : World (OptionalRefactoringOption T)) Obj,
       heap w !! Opt this = Some Obj →
       Value Obj = None →
       isRequired Obj = false ∧ evaluate this w = Some (Success None, w)).
Proof.
  split.
  - intros OptionType K this w Obj. apply option_evaluate_alive.
  - intros T this w Obj Halive Hunset. split; [reflexivity |].
    rewrite (option_evaluate_alive this w Obj Halive). simpl. by rewrite Hunset.
Qed.

Context {OptionType : Type} `{!RefactoringOptionKind OptionType}.
Implicit Types (this : t OptionType) (w : World OptionType).

(** C5, as the code has it: also for an option that is declared required,
    set or not, [evaluate] returns the success carrying [getValue] of the
    shared option, and it has no failure outcome at all. *)
Theorem option_evaluate_required_is_success this w (Obj : OptionType) :
  heap w !! Opt this = Some Obj →
  isRequired Obj = true →
  evaluate this w = Some (Success (getValue Obj), w)
  ∧ ∀ Err w', evaluate this w ≠ Some (Failure Err, w').
Proof.
  intros Halive _. split.
  - by apply option_evaluate_alive.
  - intros Err w'. apply option_evaluate_no_failure.
Qed.

(** C6: the constructor makes one new option object; the requirement, and
    every copy of it, declares exactly that one pointer, and [evaluate]
    reads the object it points to. *)
Theorem option_requirement_declares_its_option w :
  ∃ this w1 P,
    new w = Some (this, w1)
    ∧ heap w !! P = None
    ∧ heap w1 !! P = Some defaultOption
    ∧ getRefactoringOptions this = [P]
    ∧ getRefactoringOptions (copy this) = [P]
    ∧ ∀ w2 Obj, heap w2 !! P = Some Obj →
        evaluate this w2 = Some (Success (getValue Obj), w2).
Proof.
  destruct (option_new_spec w) as (this & Hnew & Hfresh).
  exists this, (store (Opt this) defaultOption w), (Opt this).
  repeat split; try done.
  - apply store_lookup.
  - intros w2 Obj. apply option_evaluate_alive.
Qed.

(** C7: requirements that share one option declare a single option, and
    after one write to it every one of them evaluates to the value
    written. *)
Theorem shared_option_resolved_once (Rs : list (t OptionType)) (P : loc)
    (Obj : OptionType) w :
  Rs ≠ [] →
  Forall (λ R, Opt R = P) Rs →
  declaredOptions Rs = {[P]}
  ∧ mapM evaluate Rs (store P Obj w) =
      Some (replicate (length Rs) (Success (getValue Obj)), store P Obj w).
Proof.
  intros Hne Hshare. split.
  - unfold declaredOptions. induction Hshare as [|R Rs HR Hshare IH]; [done |].
    rewrite fmap_cons, union_list_cons. simpl. rewrite HR.
    rewrite union_empty_r_L. destruct Rs as [|R' Rs'].
    + simpl. apply union_empty_r_L.
    + rewrite IH by done. apply union_idemp_L.
  - clear Hne. induction Hshare as [|R Rs HR Hshare IH]; [reflexivity |].
    simpl. unfold mbind, mret, M_bind, M_ret in *.
    rewrite (option_evaluate_alive R _ Obj) by (rewrite HR; apply store_lookup).
    by rewrite IH.
Qed.

(** C8: calling [evaluate] again and again on the same requirement gives,
    call after call, the result of the first call; this holds for the
    selection requirement and for the option requirement. *)
Theorem evaluate_repeatable (n : nat) w :
  (∀ sel : SourceRangeSelectionRequirement.t,
     repeatM (S n) (SourceRangeSelectionRequirement.evaluate sel) w =
       (λ rw, (replicate (S n) rw.1, rw.2))
         <$> SourceRangeSelectionRequirement.evaluate sel w)
  ∧ (∀ this,
       repeatM (S n) (evaluate this) w =
         (λ rw, (replicate (S n) rw.1, rw.2)) <$> evaluate this w).
Proof.
  split.
  - intros sel.
    rewrite (repeatM_constant _ (S n) w _ (selection_evaluate_cases sel w)).
    by rewrite (selection_evaluate_cases sel w).
  - intros this. destruct (heap w !! Opt this) as [Obj|] eqn:Halive.
    + pose proof (option_evaluate_alive this w Obj Halive) as Heval.
      by rewrite (repeatM_constant _ (S n) w _ Heval), Heval.
    + assert (evaluate this w = None) as Hnone
        by (by rewrite option_evaluate_unfold, Halive).
      rewrite Hnone. by apply repeatM_none.
Qed.

(** C10: the result of [evaluate] of an option requirement is the same
    under any two contexts: only the shared option is read. *)
Theorem option_evaluate_ignores_context this w (C1 C2 : RefactoringRuleContext) :
  fst <$> evaluate this (setContext C1 w) = fst <$> evaluate this (setContext C2 w).
Proof.
  rewrite !option_evaluate_unfold. simpl.
  by destruct (heap w !! Opt this).
Qed.

End OptionClaims.

(** ** The rule binder *)

Section BinderFacts.
Context `{RuleContextDecls} {OptionType : Type} {Rule : Type}.

Import RuleBinder.

(** A failing requirement after a prefix that succeeds ends the run: the
    requirements after it and the constructor do not occur in the result. *)
Lemma bindRule_stops_at_failure {Ts1} (Pre : Requirements OptionType Ts1) w Vs w1 :
  Succeed Pre w Vs w1 →
  ∀ T Ts2 (R : Requirement T) (Post : Requirements OptionType Ts2)
    (Construct : Values (Ts1 ++ T :: Ts2) → M OptionType Rule) Err w2,
    R w1 = Some (Failure Err, w2) →
    bindRule (append Pre (ReqCons R Post)) Construct w = Some (Failure Err, w2).
Proof.
  induction 1 as [w | T0 Ts0 R0 Rs0 w V w1 Vs w2 HR0 Hrest IH];
    intros T Ts2 R Post Construct Err w3 HR.
  - simpl. unfold mbind, M_bind. by rewrite HR.
  - simpl. unfold mbind, M_bind. rewrite HR0.
    by apply (IH T Ts2 R Post (λ Vs', Construct (V, Vs'))).
Qed.

(** When all requirements succeed the constructor runs on their values,
    in the world the last requirement left. *)
Lemma bindRule_all_succeed {Ts} (Rs : Requirements OptionType Ts) w Vs w1 :
  Succeed Rs w Vs w1 →
  ∀ Construct : Values Ts → M OptionType Rule,
    bindRule Rs Construct w = (λ rw, (Success rw.1, rw.2)) <$> Construct Vs w1.
Proof.
  induction 1 as [w | T0 Ts0 R0 Rs0 w V w1 Vs w2 HR0 Hrest IH]; intros Construct.
  - simpl. unfold mbind, mret, M_bind, M_ret.
    by destruct (Construct tt w) as [[r w']|].
  - simpl. unfold mbind, M_bind. rewrite HR0.
    apply (IH (λ Vs', Construct (V, Vs'))).
Qed.

(** A rule comes out only of a run in which all requirements succeeded. *)
Lemma bindRule_success_inv {Ts} (Rs : Requirements OptionType Ts) :
  ∀ (Construct : Values Ts → M OptionType Rule) w r w',
    bindRule Rs Construct w = Some (Success r, w') →
    ∃ Vs w1, Succeed Rs w Vs w1 ∧ Construct Vs w1 = Some (r, w').
Proof.
  induction Rs as [| T Ts R Rs IH]; intros Construct w r w'; simpl;
    unfold mbind, mret, M_bind, M_ret.
  - destruct (Construct tt w) as [[r0 w0]|] eqn:HC; [| done].
    intros [= <- <-]. exists tt, w. split; [constructor | done].
  - destruct (R w) as [[[V | Err] w1]|] eqn:HR; [| done | done].
    intros Hrest. apply IH in Hrest as (Vs & w2 & Hsucc & HC).
    exists (V, Vs), w2. split; [by econstructor | done].
Qed.

(** C4: the binder evaluates the requirements from left to right; when
    one fails after the ones before it succeeded, the result is that
    failure and the world that requirement left, whatever the later
    requirements and the constructor are; a rule is returned exactly when
    every requirement succeeded, and it is the one the constructor makes
    from the values in declaration order. *)
Theorem binder_short_circuit_all_or_nothing :
  (∀ Ts1 (Pre : Requirements OptionType Ts1) w Vs w1 T Ts2 (R : Requirement T)
     (Post : Requirements OptionType Ts2)
     (Construct : Values (Ts1 ++ T :: Ts2) → M OptionType Rule) Err w2,
     Succeed Pre w Vs w1 →
     R w1 = Some (Failure Err, w2) →
     bindRule (append Pre (ReqCons R Post)) Construct w = Some (Failure Err, w2))
  ∧ (∀ Ts (Rs : Requirements OptionType Ts)
       (Construct : Values Ts → M OptionType Rule) w r w',
       bindRule Rs Construct w = Some (Success r, w') ↔
       ∃ Vs w1, Succeed Rs w Vs w1 ∧ Construct Vs w1 = Some (r, w')).
Proof.
  split.
  - intros Ts1 Pre w Vs w1 T Ts2 R Post Construct Err w2 Hpre HR.
    by eapply bindRule_stops_at_failure.
  - intros Ts Rs Construct w r w'. split.
    + apply bindRule_success_inv.
    + intros (Vs & w1 & Hsucc & HC).
      rewrite (bindRule_all_succeed Rs w Vs w1 Hsucc), HC. reflexivity.
Qed.

End BinderFacts.

(** ** The theorems at concrete inputs *)

Section Witnesses.
Import OptionRequirement OptionKinds RuleBinder Scenario.

Lemma option_evaluate_returns_stored_value_witness :
  let w := world (Clang.selected 10 20) (resolvedTo 5) in
  let w' : World (OptionalRefactoringOption Z) :=
    mkWorld Clang.unselected {[ 2%positive := mkOptional None ]} in
  (heap w !! Opt countRequirement = Some (resolvedTo 5)
   ∧ evaluate countRequirement w = Some (Success 5%Z, w))
  ∧ (heap w' !! 2%positive = Some (mkOptional None)
     ∧ evaluate (make 2) w' = Some (Success None, w')).
Proof.
  intros w w'.
  destruct (option_evaluate_returns_stored_value (H := Clang.Decls))
    as [Hany Hoptional].
  split; (split; [reflexivity |]).
  - apply (Hany IntOption (RequiredKind Z) countRequirement w (resolvedTo 5)).
    reflexivity.
  - apply (Hoptional Z (make 2) w' (mkOptional None)); reflexivity.
Defined.

Lemma option_evaluate_required_is_success_witness :
  let w := world Clang.unselected unset in
  heap w !! Opt countRequirement = Some unset
  ∧ isRequired unset = true
  ∧ evaluate countRequirement w = Some (Success 0%Z, w).
Proof.
  intros w. split; [reflexivity |]. split; [reflexivity |].
  destruct (option_evaluate_required_is_success countRequirement w unset)
    as [Heval _]; [reflexivity | reflexivity | exact Heval].
Defined.

(** C5, refuted as stated: the option is required and unset, and
    [evaluate] returns a success, not a failure. *)
Lemma option_evaluate_required_unset_not_failure :
  let w := world Clang.unselected unset in
  isRequired unset = true
  ∧ IsSet unset = false
  ∧ evaluate countRequirement w = Some (Success 0%Z, w)
  ∧ ¬ ∃ Err w', evaluate countRequirement w = Some (Failure Err, w').
Proof.
  intros w. repeat split.
  intros (Err & w' & Hfail). vm_compute in Hfail. discriminate Hfail.
Qed.

Lemma option_requirement_declares_its_option_witness :
  let w := world Clang.unselected unset in
  ∃ this P,
    getRefactoringOptions this = [P]
    ∧ heap w !! P = None
    ∧ evaluate this (store P (resolvedTo 7) w) =
        Some (Success 7%Z, store P (resolvedTo 7) w).
Proof.
  intros w.
  destruct (option_requirement_declares_its_option w)
    as (this & w1 & P & _ & Hfresh & _ & Hdeclared & _ & Hreads).
  exists this, P. split; [exact Hdeclared |]. split; [exact Hfresh |].
  apply (Hreads (store P (resolvedTo 7) w) (resolvedTo 7)).
  apply lookup_insert_eq.
Defined.

Lemma shared_option_resolved_once_witness :
  let w := world Clang.unselected unset in
  let Rs := [countRequirement; copy countRequirement; make 1] in
  Rs ≠ []
  ∧ Forall (λ R, Opt R = 1%positive) Rs
  ∧ declaredOptions Rs = {[ 1%positive ]}
  ∧ mapM evaluate Rs (store 1 (resolvedTo 5) w) =
      Some ([Success 5%Z; Success 5%Z; Success 5%Z], store 1 (resolvedTo 5) w).
Proof.
  intros w Rs.
  assert (Rs ≠ []) as Hne by discriminate.
  assert (Forall (λ R, Opt R = 1%positive) Rs) as Hshare
    by (repeat constructor).
  split; [exact Hne |]. split; [exact Hshare |].
  exact (shared_option_resolved_once Rs 1%positive (resolvedTo 5) w Hne Hshare).
Defined.

End Witnesses.

Section BinderWitness.
Import OptionRequirement OptionKinds RuleBinder Scenario.

Lemma binder_short_circuit_all_or_nothing_witness :
  let w := world Clang.unselected (resolvedTo 5) in
  let Pre := ReqCons (evaluate countRequirement) ReqNil in
  let Post := ReqCons (probe 1 unset) ReqNil in
  let w' := world (Clang.selected 10 20) (resolvedTo 5) in
  (Succeed Pre w (5%Z, tt) w
   ∧ selectionRequirement w = Some (Failure NoSelection, w)
   ∧ bindRule (append Pre (ReqCons selectionRequirement Post))
       (markingConstructor 1 unset) w = Some (Failure NoSelection, w))
  ∧ (Succeed requirements w' (Clang.range 10 20, (5%Z, tt)) w'
     ∧ bindRule requirements initiate w' =
         Some (Success (mkRule (Clang.range 10 20) 5), w')).
Proof.
  intros w Pre Post w'.
  destruct (binder_short_circuit_all_or_nothing
              (H := Clang.Decls) (OptionType := IntOption) (Rule := unit))
    as [Hstop _].
  destruct (binder_short_circuit_all_or_nothing
              (H := Clang.Decls) (OptionType := IntOption) (Rule := Rule))
    as [_ Hrule].
  assert (Succeed Pre w (5%Z, tt) w) as Hpre
    by (repeat econstructor).
  assert (Succeed requirements w' (Clang.range 10 20, (5%Z, tt)) w') as Hall
    by (repeat econstructor).
  split.
  - split; [exact Hpre |]. split; [reflexivity |].
    apply (Hstop _ Pre w (5%Z, tt) w _ _ selectionRequirement Post
             (markingConstructor 1 unset) NoSelection w Hpre).
    reflexivity.
  - split; [exact Hall |].
    apply Hrule. exists (Clang.range 10 20, (5%Z, tt)), w'.
    split; [exact Hall | reflexivity].
Defined.

(** The scenario with an invalid selection: the binder returns the
    failure of the selection requirement and the world is as it was. *)
Example scenario_invalid_selection :
  let w := world Clang.unselected (resolvedTo 5) in
  bindRule requirements initiate w = Some (Failure NoSelection, w).
Proof. reflexivity. Qed.

(** The probe and the marking constructor are seen when they do run. *)
Example probe_leaves_its_mark :
  let w := world (Clang.selected 10 20) (resolvedTo 5) in
  bindRule (ReqCons selectionRequirement (ReqCons (probe 1 unset) ReqNil))
    (λ _, mret tt) w = Some (Success tt, world (Clang.selected 10 20) unset)
  ∧ bindRule (ReqCons selectionRequirement ReqNil)
      (markingConstructor 1 unset) w =
      Some (Success tt, world (Clang.selected 10 20) unset).
Proof. split; reflexivity. Qed.

End BinderWitness.

(** * Further properties of the header *)

(** ** What a caller of the selection requirement can rely on *)

Section SelectionGuarantees.
Context `{RuleContextDecls} {OptionType : Type}.
Implicit Types (this : SourceRangeSelectionRequirement.t) (w : World OptionType).

Import SourceRangeSelectionRequirement.

(** X1: a range that [evaluate] hands out as a success is valid, and it is
    the selection range of the context: a rule never receives an invalid
    range from this requirement. *)
Theorem selection_success_is_valid this w R w' :
  evaluate this w = Some (Success R, w') →
  isValid R = true ∧ R = getSelectionRange (ctx w) ∧ w' = w.
Proof.
  rewrite selection_evaluate_cases.
  destruct (isValid (getSelectionRange (ctx w))) eqn:Hvalid; [| congruence].
  intros [= <- <-]. by repeat split.
Qed.

(** X2: [evaluate] fails exactly when the selection range is invalid, and
    then with one and the same error, whatever the context holds
    otherwise. *)
Theorem selection_failure_iff_invalid this w Err w' :
  evaluate this w = Some (Failure Err, w') ↔
  isValid (getSelectionRange (ctx w)) = false
  ∧ Err = StringError NoSelectionMessage inconvertibleErrorCode
  ∧ w' = w.
Proof.
  rewrite selection_evaluate_cases.
  destruct (isValid (getSelectionRange (ctx w))) eqn:Hvalid.
  - split; [congruence | intros (? & _); congruence].
  - split.
    + intros [= <- <-]. by repeat split.
    + intros (_ & -> & ->). reflexivity.
Qed.

(** X3: the result of the selection requirement depends on the context
    only: two worlds with the same context, whatever their option objects
    are, give the same result. *)
Theorem selection_evaluate_ignores_options this w1 w2 :
  ctx w1 = ctx w2 →
  fst <$> evaluate this w1 = fst <$> evaluate this w2.
Proof.
  intros Hctx. rewrite !selection_evaluate_cases. simpl. by rewrite Hctx.
Qed.

End SelectionGuarantees.

(** ** What a caller of the option requirement can rely on *)

Section OptionGuarantees.
Context `{RuleContextDecls}.
Context {OptionType : Type} `{!RefactoringOptionKind OptionType}.
Implicit Types (this that : OptionRequirement.t OptionType) (w : World OptionType).
Implicit Types (P : loc) (Obj : OptionType).

Import OptionRequirement.

(** The pointer the constructor takes is unused before and owned after. *)
Lemma option_new_inv w this w1 :
  new w = Some (this, w1) →
  heap w !! Opt this = None ∧ w1 = store (Opt this) defaultOption w.
Proof.
  destruct (option_new_spec w) as (this0 & Hnew & Hfresh).
  rewrite Hnew. intros [= <- <-]. by split.
Qed.

(** A list of requirements that all point to objects equal to [Obj]. *)
Lemma option_mapM_evaluate (Rs : list (t OptionType)) Obj w :
  Forall (λ R, heap w !! Opt R = Some Obj) Rs →
  mapM evaluate Rs w = Some (replicate (length Rs) (Success (getValue Obj)), w).
Proof.
  induction 1 as [|R Rs HR Hrest IH]; [reflexivity |].
  simpl. unfold mbind, mret, M_bind, M_ret in *.
  by rewrite (option_evaluate_alive R w Obj HR), IH.
Qed.

Lemma declaredOptions_list (Rs : list (t OptionType)) :
  declaredOptions Rs = list_to_set (Opt <$> Rs).
Proof.
  unfold declaredOptions. induction Rs as [|R Rs IH]; [reflexivity |].
  rewrite !fmap_cons, union_list_cons, list_to_set_cons, IH. simpl.
  by rewrite union_empty_r_L.
Qed.

(** X4: whenever [evaluate] of an option requirement returns, the world
    is the one it was called in: neither the context nor any option object
    is written. *)
Theorem option_evaluate_pure this w r w' :
  evaluate this w = Some (r, w') → w' = w.
Proof.
  rewrite option_evaluate_unfold.
  destruct (heap w !! Opt this); simpl; congruence.
Qed.

(** X5: a write to another option object does not change what a
    requirement evaluates to. *)
Theorem option_evaluate_frame this P Obj w :
  P ≠ Opt this →
  fst <$> evaluate this (store P Obj w) = fst <$> evaluate this w.
Proof.
  intros Hother. rewrite !option_evaluate_unfold.
  rewrite (store_lookup_ne P (Opt this) Obj w Hother).
  by destruct (heap w !! Opt this).
Qed.

(** X6: a requirement evaluated right after its construction, before any
    resolution, succeeds with the value of the default-constructed option;
    the construction leaves the context alone. *)
Theorem option_evaluate_after_new w :
  ∃ w1, (this ← new; evaluate this) w =
          Some (Success (getValue defaultOption), w1)
        ∧ ctx w1 = ctx w.
Proof.
  destruct (option_new_spec w) as (this & Hnew & Hfresh).
  exists (store (Opt this) defaultOption w). split; [| reflexivity].
  unfold mbind at 1, M_bind at 1. rewrite Hnew.
  apply option_evaluate_alive, store_lookup.
Qed.

(** X7: constructing a requirement does not touch the ones that exist: the
    new requirement declares another option than an existing one does, and
    the existing one evaluates to what it evaluated to before. *)
Theorem option_new_does_not_alias this that w w1 Obj :
  heap w !! Opt this = Some Obj →
  new w = Some (that, w1) →
  getRefactoringOptions that ≠ getRefactoringOptions this
  ∧ evaluate this w1 = Some (Success (getValue Obj), w1)
  ∧ evaluate that w1 = Some (Success (getValue defaultOption), w1).
Proof.
  intros Halive Hnew. apply option_new_inv in Hnew as [Hfresh ->].
  assert (Opt that ≠ Opt this) as Hne by congruence.
  split; [unfold getRefactoringOptions; congruence |]. split.
  - apply option_evaluate_alive. by rewrite store_lookup_ne.
  - apply option_evaluate_alive, store_lookup.
Qed.

End OptionGuarantees.

(** ** Many requirements *)

Section ManyRequirements.
Context `{RuleContextDecls}.
Context {OptionType : Type} `{!RefactoringOptionKind OptionType}.
Implicit Types (this : OptionRequirement.t OptionType) (w : World OptionType).

Import OptionRequirement.

(** [n] constructions in a row: each takes a pointer that was unused, and
    no object that existed is overwritten. *)
Lemma option_new_many_spec (n : nat) :
  ∀ w, ∃ Rs w',
    repeatM n new w = Some (Rs, w')
    ∧ length Rs = n
    ∧ NoDup (Opt <$> Rs)
    ∧ heap w ⊆ heap w'
    ∧ Forall (λ R, heap w !! Opt R = None
                   ∧ heap w' !! Opt R = Some defaultOption) Rs.
Proof.
  induction n as [|n IH]; intros w.
  - exists [], w. split; [reflexivity |]. split; [reflexivity |].
    split; [apply NoDup_nil_2 |]. split; [reflexivity | apply Forall_nil_2].
  - destruct (option_new_spec w) as (this & Hnew & Hfresh).
    destruct (IH (store (Opt this) defaultOption w))
      as (Rs & w' & Hrun & Hlen & Hdistinct & Hgrow & Hall).
    assert (heap w ⊆ heap (store (Opt this) defaultOption w)) as Hstep
      by (by apply insert_subseteq).
    exists (this :: Rs), w'. split; [| split; [| split; [| split]]].
    + simpl. unfold mbind, mret, M_bind, M_ret in *. by rewrite Hnew, Hrun.
    + simpl. by rewrite Hlen.
    + rewrite fmap_cons. apply NoDup_cons. split; [| done].
      intros (R & Hsame & HR)%list_elem_of_fmap.
      rewrite Forall_forall in Hall. destruct (Hall R HR) as [Hunused _].
      rewrite <- Hsame, store_lookup in Hunused. discriminate Hunused.
    + by etrans.
    + constructor.
      * split; [done |].
        eapply lookup_weaken; [apply store_lookup | done].
      * eapply Forall_impl; [exact Hall |].
        intros R [Hunused Hdefault]. split; [| done].
        by eapply lookup_weaken_None.
Qed.

(** X8: any number of requirements constructed one after the other own
    pairwise different options, as many as there are requirements; the
    objects that existed before are kept, and each new requirement
    evaluates to the value of the default-constructed option. *)
Theorem option_new_many_distinct (n : nat) w :
  ∃ Rs w',
    repeatM n new w = Some (Rs, w')
    ∧ NoDup (Rs ≫= getRefactoringOptions)
    ∧ size (declaredOptions Rs) = n
    ∧ heap w ⊆ heap w'
    ∧ mapM evaluate Rs w' =
        Some (replicate n (Success (getValue defaultOption)), w').
Proof.
  destruct (option_new_many_spec n w)
    as (Rs & w' & Hrun & Hlen & Hdistinct & Hgrow & Hall).
  exists Rs, w'. split; [done |]. split; [| split; [| split; [done |]]].
  - replace (Rs ≫= getRefactoringOptions) with (Opt <$> Rs); [done |].
    clear. induction Rs as [|R Rs IH]; [reflexivity |].
    simpl. by f_equal.
  - rewrite declaredOptions_list, size_list_to_set by done.
    by rewrite length_fmap.
  - rewrite <- Hlen. apply option_mapM_evaluate.
    eapply Forall_impl; [exact Hall |]. by intros R [_ Hdefault].
Qed.

(** X9: the two requirements of the header can be evaluated in either
    order: the pair of results and the world that is left are the same. *)
Theorem evaluations_commute (sel : SourceRangeSelectionRequirement.t) this w :
  (x ← SourceRangeSelectionRequirement.evaluate sel;
   y ← evaluate this;
   mret (x, y)) w
  = (y ← evaluate this;
     x ← SourceRangeSelectionRequirement.evaluate sel;
     mret (x, y)) w.
Proof.
  unfold mbind, mret, M_bind, M_ret.
  rewrite (selection_evaluate_cases sel w), (option_evaluate_unfold this w).
  destruct (heap w !! Opt this) as [Obj|]; simpl; [| reflexivity].
  by rewrite (selection_evaluate_cases sel w).
Qed.

End ManyRequirements.

(** ** The further properties at concrete inputs *)

Section GuaranteeWitnesses.
Import OptionRequirement OptionKinds Scenario.

Lemma selection_success_is_valid_witness :
  let w := world (Clang.selected 10 20) (resolvedTo 5) in
  selectionRequirement w = Some (Success (Clang.range 10 20), w)
  ∧ isValid (Clang.range 10 20) = true.
Proof.
  intros w. split; [reflexivity |].
  apply (selection_success_is_valid SourceRangeSelectionRequirement.make
           w (Clang.range 10 20) w).
  reflexivity.
Defined.

Lemma selection_failure_iff_invalid_witness :
  let w := world Clang.unselected (resolvedTo 5) in
  isValid (getSelectionRange (ctx w)) = false
  ∧ selectionRequirement w = Some (Failure NoSelection, w).
Proof.
  intros w. split; [reflexivity |].
  apply (selection_failure_iff_invalid SourceRangeSelectionRequirement.make
           w NoSelection w).
  repeat split.
Defined.

Lemma selection_evaluate_ignores_options_witness :
  let w1 := world (Clang.selected 10 20) unset in
  let w2 := world (Clang.selected 10 20) (resolvedTo 5) in
  ctx w1 = ctx w2
  ∧ fst <$> selectionRequirement w1 = fst <$> selectionRequirement w2.
Proof.
  intros w1 w2. split; [reflexivity |].
  apply (selection_evaluate_ignores_options
           SourceRangeSelectionRequirement.make w1 w2).
  reflexivity.
Defined.

Lemma option_evaluate_pure_witness :
  let w := world Clang.unselected (resolvedTo 5) in
  evaluate countRequirement w = Some (Success 5%Z, w)
  ∧ w = w.
Proof.
  intros w. split; [reflexivity |].
  eapply (option_evaluate_pure countRequirement w).
  reflexivity.
Defined.

Lemma option_evaluate_frame_witness :
  let w := world Clang.unselected (resolvedTo 5) in
  2%positive ≠ Opt countRequirement
  ∧ fst <$> evaluate countRequirement (store 2 unset w) = Some (Success 5%Z).
Proof.
  intros w.
  assert (2%positive ≠ Opt countRequirement) as Hother by discriminate.
  split; [exact Hother |].
  rewrite (option_evaluate_frame countRequirement 2%positive unset w Hother).
  reflexivity.
Defined.

Lemma option_new_does_not_alias_witness :
  let w := world Clang.unselected (resolvedTo 5) in
  let w1 := store 2 defaultOption w in
  heap w !! Opt countRequirement = Some (resolvedTo 5)
  ∧ new w = Some (make 2, w1)
  ∧ evaluate countRequirement w1 = Some (Success 5%Z, w1).
Proof.
  intros w w1. split; [reflexivity |]. split; [reflexivity |].
  destruct (option_new_does_not_alias countRequirement (make 2) w w1
              (resolvedTo 5)) as (_ & Hkept & _);
    [reflexivity | reflexivity | exact Hkept].
Defined.

End GuaranteeWitnesses.
